(** * JobManager: the job list of the optimisation front end

    A shallow embedding of [src/frontend/components/jobs/JobManager.tsx]:
    the snapshot fetch ([fetchJobs]), the realtime callback registered by
    [subscribeToJobUpdates], the export of a job's results
    ([handleDownloadResults]) and the two status projections
    ([getStatusColor], [getProgressValue]).

    Rows of [optimization_jobs] reach the component as JSON objects, so a
    job is a finite map from column names to JSON values and the object
    spread of the UPDATE branch is a right-biased union of such maps. *)

From Stdlib Require Import ZArith Ascii String List Bool Lia.
From stdpp Require Import base strings list gmap fin_maps pretty.

Set Warnings "-register-all".
Local Open Scope string_scope.

(** ** JavaScript values and the built-ins the component calls *)

Module JS.

(** A JSON value as [JSON.parse] delivers it.  Numbers are the integers,
    printed in plain decimal (the embedding covers neither fractions nor
    the exponent notation of large magnitudes); a string is a sequence
    of 8-bit code units, read as the code points U+0000 to U+00FF; an
    object keeps its properties in enumeration order.  [undefined] is the
    [None] of [option value]. *)
Inductive value : Type :=
| VNull
| VBool (b : bool)
| VNum (n : Z)
| VStr (s : string)
| VArr (items : list value)
| VObj (props : list (string * value)).

(** The line feed of the template literal and of [join('\n')]. *)
Definition LF : string := String (ascii_of_nat 10) "".

(** [a === b].  Primitives compare by value.  Two objects or arrays are
    equal only when they are the same reference, and the operands the
    component compares come from separately parsed messages, so they
    never are. *)
Definition strict_eq (a b : option value) : bool :=
  match a, b with
  | None, None => true
  | Some VNull, Some VNull => true
  | Some (VBool x), Some (VBool y) => Bool.eqb x y
  | Some (VNum x), Some (VNum y) => Z.eqb x y
  | Some (VStr x), Some (VStr y) => String.eqb x y
  | _, _ => false
  end.

(** [ToBoolean]: what [!x], [x && y] and [x || y] test. *)
Definition truthy (v : option value) : bool :=
  match v with
  | None => false
  | Some VNull => false
  | Some (VBool b) => b
  | Some (VNum n) => negb (Z.eqb n 0)
  | Some (VStr s) => negb (String.eqb s "")
  | Some (VArr _) => true
  | Some (VObj _) => true
  end.

(** [strings.join(sep)] on strings already converted. *)
Fixpoint join_strings (sep : string) (l : list string) : string :=
  match l with
  | [] => ""
  | [s] => s
  | s :: rest => s ++ sep ++ join_strings sep rest
  end.

(** [ToString], as applied by a template literal's [${...}] and by
    [Array.prototype.join] to each element ([null] elements of an array
    are joined as the empty string). *)
Fixpoint ToString (v : value) : string :=
  match v with
  | VNull => "null"
  | VBool true => "true"
  | VBool false => "false"
  | VNum n => pretty n
  | VStr s => s
  | VArr items =>
      join_strings ","
        (List.map (fun x => match x with VNull => "" | _ => ToString x end) items)
  | VObj _ => "[object Object]"
  end.

Definition ToString_opt (v : option value) : string :=
  match v with
  | None => "undefined"
  | Some x => ToString x
  end.

(** [items.join(sep)] for an array of JSON values. *)
Definition Array_join (sep : string) (items : list value) : string :=
  join_strings sep
    (List.map (fun x => match x with VNull => "" | _ => ToString x end) items).

(** Lower-case hexadecimal digit, for [\u00xx] escapes. *)
Definition hex_digit (n : N) : ascii :=
  match n with
  | 0 => "0" | 1 => "1" | 2 => "2" | 3 => "3" | 4 => "4" | 5 => "5"
  | 6 => "6" | 7 => "7" | 8 => "8" | 9 => "9" | 10 => "a" | 11 => "b"
  | 12 => "c" | 13 => "d" | 14 => "e" | _ => "f"
  end%char%N.

(** The characters [\] and the double quote. *)
Definition BACKSLASH : ascii := ascii_of_nat 92.
Definition DQUOTE : ascii := ascii_of_nat 34.

(** One code unit inside [QuoteJSONString]: the short escapes for
    backspace, tab, line feed, form feed, carriage return, the double
    quote and the backslash, [\u00xx] for the other control characters. *)
Definition quote_char (c : ascii) : string :=
  let n := N_of_ascii c in
  match n with
  | 8 => String BACKSLASH "b"
  | 9 => String BACKSLASH "t"
  | 10 => String BACKSLASH "n"
  | 12 => String BACKSLASH "f"
  | 13 => String BACKSLASH "r"
  | 34 => String BACKSLASH (String DQUOTE "")
  | 92 => String BACKSLASH (String BACKSLASH "")
  | _ =>
      if (n <? 32)%N
      then String BACKSLASH "u00"
             ++ String (hex_digit (n / 16)) (String (hex_digit (n mod 16)) "")
      else String c ""
  end%N.

Fixpoint quote_body (s : string) : string :=
  match s with
  | EmptyString => ""
  | String c s' => quote_char c ++ quote_body s'
  end.

(** [QuoteJSONString]. *)
Definition QuoteJSONString (s : string) : string :=
  String DQUOTE (quote_body s ++ String DQUOTE "").

(** [SerializeJSONProperty] with the gap of [JSON.stringify(v, null, 2)]:
    [indent] is the current indentation. *)
Fixpoint SerializeJSON (indent : string) (v : value) : string :=
  match v with
  | VNull => "null"
  | VBool true => "true"
  | VBool false => "false"
  | VNum n => pretty n
  | VStr s => QuoteJSONString s
  | VArr [] => "[]"
  | VArr items =>
      let stepback := indent in
      let indent := indent ++ "  " in
      "[" ++ LF ++ indent
        ++ join_strings ("," ++ LF ++ indent) (List.map (SerializeJSON indent) items)
        ++ LF ++ stepback ++ "]"
  | VObj [] => "{}"
  | VObj props =>
      let stepback := indent in
      let indent := indent ++ "  " in
      "{" ++ LF ++ indent
        ++ join_strings ("," ++ LF ++ indent)
             (List.map (fun kv => QuoteJSONString (fst kv) ++ ": " ++ SerializeJSON indent (snd kv))
                props)
        ++ LF ++ stepback ++ "}"
  end.

(** [JSON.stringify(v, null, 2)]: [undefined] for [undefined]. *)
Definition JSON_stringify (v : option value) : option string :=
  match v with
  | None => None
  | Some x => Some (SerializeJSON "" x)
  end.

(** The white space and line terminators of [String.prototype.trim]
    among the code points below U+0100: TAB, LF, VT, FF, CR, SP, NBSP. *)
Definition is_white (c : ascii) : bool :=
  match N_of_ascii c with
  | 9 | 10 | 11 | 12 | 13 | 32 | 160 => true
  | _ => false
  end%N.

Fixpoint trimStart (s : string) : string :=
  match s with
  | EmptyString => ""
  | String c s' => if is_white c then trimStart s' else s
  end.

Fixpoint trimEnd (s : string) : string :=
  match s with
  | EmptyString => ""
  | String c s' =>
      match trimEnd s' with
      | EmptyString => if is_white c then "" else String c ""
      | r => String c r
      end
  end.

(** [s.trim()]. *)
Definition trim (s : string) : string := trimStart (trimEnd s).

(** [s.includes(t)], used to state that a document contains a text. *)
Fixpoint startsWith (t s : string) : bool :=
  match t, s with
  | EmptyString, _ => true
  | String a t', String b s' => Ascii.eqb a b && startsWith t' s'
  | String _ _, EmptyString => false
  end.

Fixpoint includes (t s : string) : bool :=
  startsWith t s ||
  match s with
  | EmptyString => false
  | String _ s' => includes t s'
  end.

End JS.

Import JS.


(** ** The component *)

(** A row of [optimization_jobs] as the client holds it: a JavaScript
    object.  The [Job] interface names the columns the component reads
    ([id], [status], [parameters], [results], [logs], ...). *)
Abbreviation Job := (gmap string value).

(** [Job['status']]. *)
Inductive Status : Type := PENDING | RUNNING | COMPLETED | FAILED.

(** [payload.eventType] of a [postgres_changes] message. *)
Inductive EventType : Type := INSERT | UPDATE | DELETE.

(** The message handed to the realtime callback: [payload.eventType]
    and [payload.new]. *)
Record Payload : Type := mkPayload {
  eventType : EventType;
  new : gmap string value
}.

(** What the component holds and shows: the two [useState] cells and the
    notifications raised through [toast.error], oldest first. *)
Record State : Type := mkState {
  jobs : list Job;
  isLoading : bool;
  toasts : list string
}.

(** [useState<Job[]>([])], [useState(true)]. *)
Definition initial : State :=
  {| jobs := []; isLoading := true; toasts := [] |}.

(** [setJobs(updater)]: React applies the updater to the current
    collection. *)
Definition setJobs (f : list Job -> list Job) (st : State) : State :=
  {| jobs := f (jobs st); isLoading := isLoading st; toasts := toasts st |}.

Definition setIsLoading (b : bool) (st : State) : State :=
  {| jobs := jobs st; isLoading := b; toasts := toasts st |}.

Definition toast_error (msg : string) (st : State) : State :=
  {| jobs := jobs st; isLoading := isLoading st; toasts := (toasts st ++ [msg])%list |}.

(** [{ ...job, ...payload.new }]: the properties of [payload.new] win,
    the others are those of [job]. *)
Definition spread (job patch : gmap string value) : gmap string value :=
  patch ∪ job.

(** The arrow function mapped over the collection by the UPDATE branch:
    [job => job.id === payload.new.id ? { ...job, ...payload.new } : job]. *)
Definition merge_one (payload_new : gmap string value) (job : Job) : Job :=
  if strict_eq (job !! "id") (payload_new !! "id")
  then spread job payload_new
  else job.

(** The UPDATE updater: [prevJobs.map(job => ...)]. *)
Definition update_jobs (payload_new : gmap string value) (prevJobs : list Job) : list Job :=
  merge_one payload_new <$> prevJobs.

(** The INSERT updater: [[payload.new, ...prevJobs]]. *)
Definition insert_job (payload_new : gmap string value) (prevJobs : list Job) : list Job :=
  payload_new :: prevJobs.

(** The callback registered by [subscribeToJobUpdates]. *)
Definition on_change (payload : Payload) (st : State) : State :=
  match eventType payload with
  | UPDATE => setJobs (update_jobs (new payload)) st
  | INSERT => setJobs (insert_job (new payload)) st
  | DELETE => st
  end.

(** The same callback as a reducer over the collection alone. *)
Definition apply_event (payload : Payload) (prevJobs : list Job) : list Job :=
  match eventType payload with
  | UPDATE => update_jobs (new payload) prevJobs
  | INSERT => insert_job (new payload) prevJobs
  | DELETE => prevJobs
  end.

(** A run of the callback over the messages in arrival order. *)
Definition apply_events (events : list Payload) (prevJobs : list Job) : list Job :=
  fold_left (fun acc e => apply_event e acc) events prevJobs.

(** The settled [await supabase.from(...).select('*').order(...)]: the
    response object with [data] ([null] as [None]) and [error] (the
    message of the error object, [null] as [None]), or a rejection. *)
Record Response : Type := mkResponse {
  data : option (list Job);
  error : option string
}.

Inductive Settled : Type :=
| Fulfilled (r : Response)
| Rejected (reason : string).

(** [fetchJobs], given how the awaited query settled. *)
Definition fetchJobs (settled : Settled) (st : State) : State :=
  let st' :=
    match settled with
    | Fulfilled r =>
        match error r with
        | Some _ => toast_error "Failed to fetch jobs" st
        | None => setJobs (fun _ => default [] (data r)) st
        end
    | Rejected _ => toast_error "Failed to fetch jobs" st
    end in
  setIsLoading false st'.

(** The fetch failed: the response carries an error, or the query
    rejected. *)
Definition fetch_failed (settled : Settled) : bool :=
  match settled with
  | Fulfilled r => bool_decide (is_Some (error r))
  | Rejected _ => true
  end.

(** [job.logs?.join('\n')]: [undefined] when [job.logs] is [undefined] or
    [null], the joined lines when it is an array; any other value has no
    [join] method and the call throws a TypeError (the outer [None]). *)
Definition logs_join (job : Job) : option (option string) :=
  match job !! "logs" with
  | None => Some None
  | Some VNull => Some None
  | Some (VArr items) => Some (Some (Array_join LF items))
  | Some _ => None
  end.

(** [x || 'No logs available'] for [x] a string or [undefined]: the empty
    string is falsy. *)
Definition or_placeholder (x : option string) : string :=
  match x with
  | None => "No logs available"
  | Some EmptyString => "No logs available"
  | Some s => s
  end.

(** [${e}] on a value that is a string or [undefined]. *)
Definition interpolate (e : option string) : string :=
  match e with
  | None => "undefined"
  | Some s => s
  end.

(** The template literal of [handleDownloadResults], before [.trim()];
    [logs] is the text of its last substitution. *)
Definition template (job : Job) (logs : string) : string :=
  LF ++ "Optimization Results for Job " ++ ToString_opt (job !! "id") ++ LF
  ++ "=====================================" ++ LF
  ++ LF
  ++ "Parameters:" ++ LF
  ++ interpolate (JSON_stringify (job !! "parameters")) ++ LF
  ++ LF
  ++ "Results:" ++ LF
  ++ interpolate (JSON_stringify (job !! "results")) ++ LF
  ++ LF
  ++ "Logs:" ++ LF
  ++ logs ++ LF
  ++ "    ".

(** What a click on the download button does: an error notification and
    nothing else, a file handed to the browser (the anchor's [download]
    name, the blob's type and the blob's content), or an exception. *)
Inductive Outcome : Type :=
| Toast (msg : string)
| Download (download : string) (blob_type : string) (resultsText : string)
| Throws.

Definition handleDownloadResults (job : Job) : Outcome :=
  if negb (truthy (job !! "results"))
  then Toast "No results available for this job"
  else
    match logs_join job with
    | None => Throws
    | Some joined =>
        Download
          ("optimization_results_" ++ ToString_opt (job !! "id") ++ ".txt")
          "text/plain"
          (trim (template job (or_placeholder joined)))
    end.

(** The guard of the download button in the rendered list:
    [job.status === 'COMPLETED' && job.results]. *)
Definition shows_download (job : Job) : bool :=
  strict_eq (job !! "status") (Some (VStr "COMPLETED")) && truthy (job !! "results").

Definition getStatusColor (status : Status) : string :=
  match status with
  | COMPLETED => "bg-green-500"
  | FAILED => "bg-red-500"
  | RUNNING => "bg-blue-500"
  | _ => "bg-gray-500"
  end.

Definition getProgressValue (status : Status) : Z :=
  match status with
  | COMPLETED => 100
  | FAILED => 100
  | RUNNING => 50
  | _ => 0
  end.

(** ** Vocabulary of the statements *)

(** The records of a collection that carry the id [i], in order. *)
Definition records_for (i : option value) (js : list Job) : list Job :=
  List.filter (fun job => strict_eq (job !! "id") i) js.

(** The messages of a run that carry the id [i], in arrival order. *)
Definition events_for (i : option value) (es : list Payload) : list Payload :=
  List.filter (fun e => strict_eq (new e !! "id") i) es.

(** How many records of a collection carry the id [i]. *)
Definition count_id (i : option value) (js : list Job) : nat :=
  length (records_for i js).

(** [t] occurs in [s]. *)
Definition occurs_in (t s : string) : Prop :=
  exists before after, s = before ++ t ++ after.

(** The texts [ts] occur in [s] one after the other, without overlap. *)
Fixpoint occur_in_order (ts : list string) (s : string) : Prop :=
  match ts with
  | [] => True
  | t :: ts' => exists before rest, s = before ++ t ++ rest /\ occur_in_order ts' rest
  end.

(** [job.logs] is what the [Job] interface declares, an array, or is
    missing. *)
Definition logs_declared (job : Job) : bool :=
  match job !! "logs" with
  | None => true
  | Some VNull => true
  | Some (VArr _) => true
  | Some _ => false
  end.

(** The layout of the export document: the header naming the id, the
    rule of 37 equals signs, then the three titled blocks. *)
Definition layout (id parameters results logs : string) : string :=
  "Optimization Results for Job " ++ id ++ LF
  ++ "=====================================" ++ LF
  ++ LF
  ++ "Parameters:" ++ LF
  ++ parameters ++ LF
  ++ LF
  ++ "Results:" ++ LF
  ++ results ++ LF
  ++ LF
  ++ "Logs:" ++ LF
  ++ logs.

(** The four substitutions of the template for a job whose logs joined
    to [joined]. *)
Definition id_text (job : Job) : string := ToString_opt (job !! "id").
Definition parameters_text (job : Job) : string :=
  interpolate (JSON_stringify (job !! "parameters")).
Definition results_text (job : Job) : string :=
  interpolate (JSON_stringify (job !! "results")).

(** Sample jobs. *)
Definition job_a : Job :=
  {[ "id" := VStr "a"; "status" := VStr "RUNNING"; "parameters" := VObj [("n", VNum 3)] ]}.
Definition job_b : Job :=
  {[ "id" := VStr "b"; "status" := VStr "PENDING" ]}.
Definition job_a_done : Job :=
  <["results" := VObj [("x", VNum 1)]]> (<["status" := VStr "COMPLETED"]> job_a).
Definition job_a_logged : Job :=
  <["logs" := VArr [VStr "start"; VStr "done"]]> job_a_done.

(** Sample messages. *)
Definition patch_a : gmap string value :=
  {[ "id" := VStr "a"; "status" := VStr "COMPLETED" ]}.
Definition patch_b : gmap string value :=
  {[ "id" := VStr "b"; "status" := VStr "RUNNING" ]}.
Definition ev_insert_a : Payload := mkPayload INSERT job_a.
Definition ev_update_a : Payload := mkPayload UPDATE patch_a.
Definition ev_update_b : Payload := mkPayload UPDATE patch_b.


(** ** The rest of the component: the effect and the rendered list *)

(** The value of [useSession()]: [None] for [null]; [user] is the
    session's user object, named here by its id. *)
Record Session : Type := mkSession {
  user : option string
}.

(** [session?.user], the condition of the effect. *)
Definition has_user (session : option Session) : bool :=
  match session with
  | None => false
  | Some s => bool_decide (is_Some (user s))
  end.

(** What happens to a mounted component: a message reaches the callback
    of the subscription, or the query of [fetchJobs] settles. *)
Inductive Occurrence : Type :=
| Message (payload : Payload)
| FetchSettled (settled : Settled).

Definition occur (st : State) (o : Occurrence) : State :=
  match o with
  | Message payload => on_change payload st
  | FetchSettled settled => fetchJobs settled st
  end.

(** The effect of [useEffect]: with a user it calls [fetchJobs] and
    subscribes, so the occurrences of the timeline act on the state in
    order; without a user it starts neither, and the state stays the
    initial one. *)
Definition session_run (session : option Session) (timeline : list Occurrence) : State :=
  if has_user session
  then fold_left occur timeline initial
  else initial.

Definition is_settled (o : Occurrence) : bool :=
  match o with
  | FetchSettled _ => true
  | Message _ => false
  end.

Definition is_failed (o : Occurrence) : bool :=
  match o with
  | FetchSettled settled => fetch_failed settled
  | Message _ => false
  end.

Definition is_insert (e : Payload) : bool :=
  match eventType e with
  | INSERT => true
  | _ => false
  end.

(** The three branches of the component's [return]: the loading text,
    the "No jobs found" card, or one card for each job. *)
Inductive View : Type :=
| LoadingJobs
| NoJobsFound
| JobCards (cards : list Job).

Definition render (st : State) : View :=
  if isLoading st then LoadingJobs
  else if Nat.eqb (length (jobs st)) 0 then NoJobsFound
  else JobCards (jobs st).

(** The branch a [switch (status)] of the two projections takes for the
    value found in a job: the three literal cases, and the [default]
    for anything else, which is where PENDING goes as well. *)
Definition status_case (status : option value) : Status :=
  if strict_eq status (Some (VStr "COMPLETED")) then COMPLETED
  else if strict_eq status (Some (VStr "FAILED")) then FAILED
  else if strict_eq status (Some (VStr "RUNNING")) then RUNNING
  else PENDING.

(** The progress bar of a card:
    [job.status === 'RUNNING' && <Progress value={getProgressValue(job.status)} />],
    [None] when no bar is rendered. *)
Definition progress_bar (job : Job) : option Z :=
  if strict_eq (job !! "status") (Some (VStr "RUNNING"))
  then Some (getProgressValue (status_case (job !! "status")))
  else None.

(** ** The sidebar ([AppSidebar.tsx]) *)

Module AppSidebar.

(** An entry of [items]; the icon is named, an absent flag is [None]. *)
Record Item : Type := mkItem {
  title : string;
  icon : string;
  url : string;
  hideWhenAuth : option bool;
  requireAuth : option bool
}.

Definition items : list Item :=
  [ mkItem "Home" "Home" "/" None None;
    mkItem "Login" "LogIn" "/login" (Some true) None;
    mkItem "Solvers" "Box" "/solvers" None None;
    mkItem "Datasets" "Database" "/datasets" None None;
    mkItem "Playground" "Terminal" "/playground" None (Some true);
    mkItem "Community" "Users" "/community" None None;
    mkItem "Profile" "User" "/profile" None (Some true) ].

(** [!flag] for a flag that is a boolean or missing. *)
Definition not_flag (flag : option bool) : bool :=
  match flag with
  | Some true => false
  | _ => true
  end.

(** The predicate of the filter:
    [item => { if (session) { return !item.hideWhenAuth } return !item.requireAuth }]. *)
Definition shown (session : option Session) (item : Item) : bool :=
  match session with
  | Some _ => not_flag (hideWhenAuth item)
  | None => not_flag (requireAuth item)
  end.

(** [filteredItems] for a list of entries, and for [items]. *)
Definition filter_items (session : option Session) (entries : list Item) : list Item :=
  List.filter (shown session) entries.

Definition filteredItems (session : option Session) : list Item :=
  filter_items session items.

End AppSidebar.

(** ** The submission form ([SubmissionForm]) *)

Module SubmissionForm.

(** The four [useState] cells of the form. *)
Record Form : Type := mkForm {
  email : string;
  comment : string;
  description : string;
  isSubmitting : bool
}.

(** A notification: [toast.error] or [toast.success]. *)
Inductive Notice : Type :=
| Error (msg : string)
| Success (msg : string).

(** The argument of a call of [addResult]. *)
Record Result : Type := mkResult {
  r_email : string;
  r_comment : string;
  r_description : string
}.

(** The form, the notifications raised so far and the calls of
    [addResult] made so far, oldest first. *)
Record World : Type := mkWorld {
  form : Form;
  notices : list Notice;
  calls : list Result
}.

Definition initial : World :=
  mkWorld (mkForm "" "" "" false) [] [].

Definition setEmail (v : string) (w : World) : World :=
  mkWorld (mkForm v (comment (form w)) (description (form w)) (isSubmitting (form w)))
    (notices w) (calls w).

Definition setComment (v : string) (w : World) : World :=
  mkWorld (mkForm (email (form w)) v (description (form w)) (isSubmitting (form w)))
    (notices w) (calls w).

Definition setDescription (v : string) (w : World) : World :=
  mkWorld (mkForm (email (form w)) (comment (form w)) v (isSubmitting (form w)))
    (notices w) (calls w).

Definition setIsSubmitting (b : bool) (w : World) : World :=
  mkWorld (mkForm (email (form w)) (comment (form w)) (description (form w)) b)
    (notices w) (calls w).

Definition toast (n : Notice) (w : World) : World :=
  mkWorld (form w) (notices w ++ [n])%list (calls w).

Definition call_addResult (r : Result) (w : World) : World :=
  mkWorld (form w) (notices w) (calls w ++ [r])%list.

(** [!s] for a string. *)
Definition blank (s : string) : bool := String.eqb s "".

(** [handleSubmit]; [resolves] tells whether the awaited [addResult]
    resolves or rejects.  The values sent are those the handler closed
    over when it was called. *)
Definition handleSubmit (resolves : bool) (w : World) : World :=
  let f := form w in
  if blank (email f) || blank (comment f) || blank (description f)
  then toast (Error "Please fill in all fields") w
  else
    let w1 := setIsSubmitting true w in
    let w2 := call_addResult (mkResult (email f) (comment f) (description f)) w1 in
    let w3 :=
      if resolves
      then toast (Success "Results submitted successfully!")
             (setDescription "" (setComment "" (setEmail "" w2)))
      else toast (Error "Failed to submit results. Please try again.") w2 in
    setIsSubmitting false w3.

(** What a user can do with the rendered form: type in the email input,
    type in the comment area, submit.  No rendered control is bound to
    [description]. *)
Inductive Action : Type :=
| TypeEmail (v : string)
| TypeComment (v : string)
| Submit (resolves : bool).

Definition act (w : World) (a : Action) : World :=
  match a with
  | TypeEmail v => setEmail v w
  | TypeComment v => setComment v w
  | Submit resolves => handleSubmit resolves w
  end.

Definition run (actions : list Action) : World :=
  fold_left act actions initial.

Definition is_submit (a : Action) : bool :=
  match a with
  | Submit _ => true
  | _ => false
  end.

End SubmissionForm.

(** ** Strict equality *)

Section StrictEq.

Lemma strict_eq_eq (a b : option value) : strict_eq a b = true -> a = b.
Proof.
  destruct a as [[| x | x | x | x | x]|], b as [[| y | y | y | y | y]|];
    simpl; try discriminate; try reflexivity; intros H.
  - apply Bool.eqb_prop in H. by subst.
  - apply Z.eqb_eq in H. by subst.
  - apply String.eqb_eq in H. by subst.
Qed.

Lemma strict_eq_sym (a b : option value) : strict_eq a b = strict_eq b a.
Proof.
  destruct a as [[| x | x | x | x | x]|], b as [[| y | y | y | y | y]|];
    simpl; try reflexivity.
  - by destruct x, y.
  - apply Z.eqb_sym.
  - apply String.eqb_sym.
Qed.

(** Two ids that match a third one match each other. *)
Lemma strict_eq_via (a b c : option value) :
  strict_eq a b = true -> strict_eq a c = strict_eq b c.
Proof. intros H. apply strict_eq_eq in H. by subst. Qed.

End StrictEq.

(** ** The object spread and the two updaters *)

Section Merge.

Implicit Types (job patch : gmap string value) (prev : list Job).

Lemma spread_lookup job patch (k : string) :
  spread job patch !! k =
    match patch !! k with
    | Some v => Some v
    | None => job !! k
    end.
Proof.
  unfold spread. rewrite lookup_union.
  destruct (patch !! k), (job !! k); reflexivity.
Qed.

(** A merged record keeps the id it was matched on. *)
Lemma spread_id job patch :
  strict_eq (job !! "id") (patch !! "id") = true ->
  spread job patch !! "id" = job !! "id".
Proof.
  intros H. apply strict_eq_eq in H. rewrite spread_lookup.
  destruct (patch !! "id"); congruence.
Qed.

Lemma update_jobs_fmap patch prev :
  update_jobs patch prev = merge_one patch <$> prev.
Proof. reflexivity. Qed.

Lemma merge_one_id patch job : merge_one patch job !! "id" = job !! "id".
Proof.
  unfold merge_one.
  destruct (strict_eq (job !! "id") (patch !! "id")) eqn:E; [|reflexivity].
  by apply spread_id.
Qed.

Lemma update_jobs_length patch prev :
  length (update_jobs patch prev) = length prev.
Proof. rewrite update_jobs_fmap. apply length_fmap. Qed.

Lemma update_jobs_no_match patch prev :
  (forall job, job ∈ prev -> strict_eq (job !! "id") (patch !! "id") = false) ->
  update_jobs patch prev = prev.
Proof.
  rewrite update_jobs_fmap.
  induction prev as [|job prev IH]; intros H; [reflexivity|].
  rewrite fmap_cons. f_equal.
  - unfold merge_one. rewrite H; [reflexivity | apply list_elem_of_here].
  - apply IH. intros j Hj. apply H. by apply list_elem_of_further.
Qed.

End Merge.

(** ** Every message acts on the records of its own id only *)

Section PerId.

Implicit Types (i : option value) (e : Payload) (prev : list Job).

Lemma records_for_update_same i patch prev :
  strict_eq (patch !! "id") i = true ->
  records_for i (update_jobs patch prev) = update_jobs patch (records_for i prev).
Proof.
  intros _. rewrite !update_jobs_fmap. unfold records_for.
  induction prev as [|job prev IH]; [reflexivity|].
  rewrite fmap_cons. simpl. rewrite merge_one_id.
  destruct (strict_eq (job !! "id") i); [rewrite fmap_cons|]; by rewrite IH.
Qed.

Lemma records_for_update_other i patch prev :
  strict_eq (patch !! "id") i = false ->
  records_for i (update_jobs patch prev) = records_for i prev.
Proof.
  intros Hne. rewrite update_jobs_fmap. unfold records_for.
  induction prev as [|job prev IH]; [reflexivity|].
  rewrite fmap_cons. simpl. rewrite merge_one_id.
  destruct (strict_eq (job !! "id") i) eqn:Hi; [|exact IH].
  rewrite IH. f_equal. unfold merge_one.
  destruct (strict_eq (job !! "id") (patch !! "id")) eqn:Hp; [|reflexivity].
  rewrite (strict_eq_via _ _ i Hp) in Hi. congruence.
Qed.

Lemma records_for_event_same i e prev :
  strict_eq (new e !! "id") i = true ->
  records_for i (apply_event e prev) = apply_event e (records_for i prev).
Proof.
  intros H. unfold apply_event. destruct (eventType e).
  - unfold insert_job, records_for. simpl. by rewrite H.
  - by apply records_for_update_same.
  - reflexivity.
Qed.

Lemma records_for_event_other i e prev :
  strict_eq (new e !! "id") i = false ->
  records_for i (apply_event e prev) = records_for i prev.
Proof.
  intros H. unfold apply_event. destruct (eventType e).
  - unfold insert_job, records_for. simpl. by rewrite H.
  - by apply records_for_update_other.
  - reflexivity.
Qed.

(** The records of an id after a run are the result of running that
    id's own messages on that id's own records. *)
Lemma records_for_events i (es : list Payload) prev :
  records_for i (apply_events es prev)
  = apply_events (events_for i es) (records_for i prev).
Proof.
  unfold apply_events. revert prev.
  induction es as [|e es IH]; intros prev; [reflexivity|].
  simpl. rewrite IH.
  destruct (strict_eq (new e !! "id") i) eqn:H.
  - simpl. by rewrite records_for_event_same.
  - by rewrite records_for_event_other.
Qed.

End PerId.

(** ** The snapshot fetch *)

Section Fetch.

(** C1, as the code has it: a snapshot that arrives without error
    replaces the collection whatever the collection held, empty or not
    (a [null] snapshot gives the empty collection), so afterwards the
    collection holds exactly the records of the snapshot; the loading
    flag is cleared and no notification is raised. *)
Theorem snapshot_replaces_collection (st : State) (snapshot : option (list Job)) :
  let st' := fetchJobs (Fulfilled (mkResponse snapshot None)) st in
  jobs st' = default [] snapshot
  /\ (forall job, (job ∈ jobs st') <-> (job ∈ default [] snapshot))
  /\ isLoading st' = false
  /\ toasts st' = toasts st.
Proof. simpl. repeat split; auto. Qed.

(** C1 fails as stated: a record inserted by an INSERT message before
    the snapshot arrives is dropped by a snapshot that does not contain
    it, although the collection was not empty. *)
Lemma snapshot_drops_inserted_record :
  let st1 := on_change (mkPayload INSERT job_b) initial in
  let st2 := fetchJobs (Fulfilled (mkResponse (Some [job_a]) None)) st1 in
  jobs st1 = [job_b]
  /\ (job_b ∉ [job_a])
  /\ jobs st2 = [job_a]
  /\ (job_b ∉ jobs st2).
Proof.
  assert (Hne : job_b ∉ [job_a]).
  { intros H. apply list_elem_of_singleton in H.
    apply (f_equal (fun m : gmap string value => m !! "id")) in H.
    vm_compute in H. discriminate. }
  simpl. repeat split; auto.
Qed.

(** C8: when the fetch fails (the response carries an error, or the
    query rejects) the collection afterwards is the collection before,
    and one error notification, "Failed to fetch jobs", is raised. *)
Theorem failed_fetch_keeps_jobs (settled : Settled) (st : State) :
  fetch_failed settled = true ->
  jobs (fetchJobs settled st) = jobs st
  /\ toasts (fetchJobs settled st) = (toasts st ++ ["Failed to fetch jobs"])%list.
Proof.
  destruct settled as [[d [msg|]]|reason]; simpl; intros H; try done.
Qed.

Lemma failed_fetch_keeps_jobs_witness :
  let settled := Fulfilled (mkResponse None (Some "connection refused")) in
  let st := mkState [job_a; job_b] false [] in
  fetch_failed settled = true
  /\ jobs (fetchJobs settled st) = [job_a; job_b]
  /\ toasts (fetchJobs settled st) = ["Failed to fetch jobs"].
Proof.
  split; [reflexivity|].
  apply (failed_fetch_keeps_jobs
           (Fulfilled (mkResponse None (Some "connection refused")))
           (mkState [job_a; job_b] false [])).
  reflexivity.
Defined.

End Fetch.

(** ** The realtime callback *)

Section Callback.

(** C2, as the code has it: an INSERT message always puts its record
    in front of the collection, so the number of records carrying the
    message's id grows by one, whether or not the id was there. *)
Theorem insert_prepends (e : Payload) (prev : list Job) :
  eventType e = INSERT ->
  apply_event e prev = new e :: prev
  /\ forall i, strict_eq (new e !! "id") i = true ->
       count_id i (apply_event e prev) = S (count_id i prev).
Proof.
  intros He. unfold apply_event. rewrite He. split; [reflexivity|].
  intros i Hi. unfold count_id, records_for, insert_job. simpl.
  by rewrite Hi.
Qed.

Lemma insert_prepends_witness :
  let e := mkPayload INSERT job_b in
  eventType e = INSERT
  /\ apply_event e [job_a] = [job_b; job_a]
  /\ count_id (Some (VStr "b")) (apply_event e [job_a]) = 1.
Proof.
  split; [reflexivity|].
  destruct (insert_prepends (mkPayload INSERT job_b) [job_a] eq_refl) as [H1 H2].
  split; [exact H1|].
  apply (H2 (Some (VStr "b"))). reflexivity.
Defined.

(** C2 fails as stated: an INSERT message for an id the collection
    already holds leaves two records with that id, and the result is
    not what the UPDATE branch gives for the same record. *)
Lemma insert_existing_id_duplicates :
  let prev := [job_a] in
  let e := mkPayload INSERT (<["status" := VStr "COMPLETED"]> job_a) in
  (exists job, job ∈ prev /\ strict_eq (job !! "id") (new e !! "id") = true)
  /\ count_id (Some (VStr "a")) (apply_event e prev) = 2
  /\ length (apply_event (mkPayload UPDATE (new e)) prev) = 1
  /\ apply_event e prev <> apply_event (mkPayload UPDATE (new e)) prev.
Proof.
  simpl. repeat split.
  - exists job_a. split; [apply list_elem_of_here | reflexivity].
  - intros H. apply (f_equal length) in H. discriminate H.
Qed.

(** C3: take any collection and two runs over the same messages in
    which the messages of each id keep their relative order.  Then for
    each id the records carrying it are the same after both runs. *)
Theorem per_id_convergence (prev : list Job) (es1 es2 : list Payload) :
  es1 ≡ₚ es2 ->
  (forall i, events_for i es1 = events_for i es2) ->
  forall i, records_for i (apply_events es1 prev)
            = records_for i (apply_events es2 prev).
Proof.
  intros _ Hord i. rewrite !records_for_events. by rewrite Hord.
Qed.

(** C4: an UPDATE message for the id of a record [R] of the collection
    leaves in [R]'s place a record that has the message's value for
    every field the message carries and [R]'s value for every other
    field.  A message carrying only the id and the status changes no
    field but the status; a [logs] field of the message replaces the
    one of [R]. *)
Theorem update_shallow_merge (prev : list Job) (patch : gmap string value)
    (n : nat) (R : Job) :
  prev !! n = Some R ->
  strict_eq (R !! "id") (patch !! "id") = true ->
  exists R',
    apply_event (mkPayload UPDATE patch) prev !! n = Some R'
    /\ (forall k v, patch !! k = Some v -> R' !! k = Some v)
    /\ (forall k, patch !! k = None -> R' !! k = R !! k)
    /\ ((forall k, is_Some (patch !! k) -> k = "id" \/ k = "status") ->
        forall k, k <> "status" -> R' !! k = R !! k)
    /\ (forall l, patch !! "logs" = Some l -> R' !! "logs" = Some l).
Proof.
  intros Hn Hid. exists (spread R patch).
  assert (Hk : forall k v, patch !! k = Some v -> spread R patch !! k = Some v).
  { intros k v Hv. by rewrite spread_lookup, Hv. }
  assert (Hf : forall k, patch !! k = None -> spread R patch !! k = R !! k).
  { intros k Hv. by rewrite spread_lookup, Hv. }
  repeat split; auto.
  - unfold apply_event. simpl. rewrite update_jobs_fmap, list_lookup_fmap, Hn.
    simpl. unfold merge_one. by rewrite Hid.
  - intros Honly k Hk'. destruct (patch !! k) as [v|] eqn:Hv; [|by apply Hf].
    destruct (Honly k) as [-> | ->]; [by eexists | | done].
    by apply spread_id.
Qed.

(** C5: an UPDATE message whose id matches no record of the collection
    changes nothing: the collection, the loading flag and the
    notifications are as before. *)
Theorem update_unknown_id_discarded (e : Payload) (st : State) :
  eventType e = UPDATE ->
  (forall job, job ∈ jobs st -> strict_eq (job !! "id") (new e !! "id") = false) ->
  on_change e st = st.
Proof.
  intros He Hno. unfold on_change, setJobs. rewrite He.
  rewrite (update_jobs_no_match _ _ Hno). by destruct st.
Qed.

Lemma per_id_convergence_witness :
  let es1 := [ev_insert_a; ev_update_b; ev_update_a] in
  let es2 := [ev_update_b; ev_insert_a; ev_update_a] in
  es1 ≡ₚ es2
  /\ (forall i, events_for i es1 = events_for i es2)
  /\ forall i, records_for i (apply_events es1 [job_b])
               = records_for i (apply_events es2 [job_b]).
Proof.
  assert (Hperm : [ev_insert_a; ev_update_b; ev_update_a]
                  ≡ₚ [ev_update_b; ev_insert_a; ev_update_a]) by apply perm_swap.
  assert (Hord : forall i,
             events_for i [ev_insert_a; ev_update_b; ev_update_a]
             = events_for i [ev_update_b; ev_insert_a; ev_update_a]).
  { intros i. unfold events_for. cbn [List.filter].
    change (new ev_insert_a !! "id") with (Some (VStr "a")).
    change (new ev_update_a !! "id") with (Some (VStr "a")).
    change (new ev_update_b !! "id") with (Some (VStr "b")).
    destruct i as [[| x | x | x | x | x]|]; try reflexivity.
    unfold strict_eq.
    destruct (String.eqb "a" x) eqn:Ea, (String.eqb "b" x) eqn:Eb;
      try reflexivity.
    apply String.eqb_eq in Ea, Eb. congruence. }
  split; [exact Hperm|]. split; [exact Hord|].
  exact (per_id_convergence [job_b] _ _ Hperm Hord).
Defined.

Lemma update_shallow_merge_witness :
  [job_b; job_a] !! 1 = Some job_a
  /\ strict_eq (job_a !! "id") (patch_a !! "id") = true
  /\ exists R',
       apply_event (mkPayload UPDATE patch_a) [job_b; job_a] !! 1 = Some R'
       /\ (forall k v, patch_a !! k = Some v -> R' !! k = Some v)
       /\ (forall k, patch_a !! k = None -> R' !! k = job_a !! k)
       /\ ((forall k, is_Some (patch_a !! k) -> k = "id" \/ k = "status") ->
           forall k, k <> "status" -> R' !! k = job_a !! k)
       /\ (forall l, patch_a !! "logs" = Some l -> R' !! "logs" = Some l).
Proof.
  split; [reflexivity|]. split; [reflexivity|].
  apply (update_shallow_merge [job_b; job_a] patch_a 1 job_a); reflexivity.
Defined.

Lemma update_unknown_id_discarded_witness :
  let st := mkState [job_a] false [] in
  eventType ev_update_b = UPDATE
  /\ (forall job, job ∈ jobs st ->
        strict_eq (job !! "id") (new ev_update_b !! "id") = false)
  /\ on_change ev_update_b st = st.
Proof.
  assert (Hno : forall job, job ∈ [job_a] ->
                  strict_eq (job !! "id") (new ev_update_b !! "id") = false).
  { intros job Hin. apply list_elem_of_singleton in Hin. subst job. reflexivity. }
  split; [reflexivity|]. split; [exact Hno|].
  exact (update_unknown_id_discarded ev_update_b (mkState [job_a] false []) eq_refl Hno).
Defined.

End Callback.

(** ** The status projections *)

(** C7: the two projections are defined on each of the four statuses:
    PENDING gives 0 and the grey class, RUNNING 50 and the blue class,
    COMPLETED 100 and the green class, FAILED 100 and the red class; so
    COMPLETED and FAILED agree on the progress and differ in the colour. *)
Theorem status_projection :
  (getProgressValue PENDING = 0%Z /\ getStatusColor PENDING = "bg-gray-500")
  /\ (getProgressValue RUNNING = 50%Z /\ getStatusColor RUNNING = "bg-blue-500")
  /\ (getProgressValue COMPLETED = 100%Z /\ getStatusColor COMPLETED = "bg-green-500")
  /\ (getProgressValue FAILED = 100%Z /\ getStatusColor FAILED = "bg-red-500")
  /\ getProgressValue COMPLETED = getProgressValue FAILED
  /\ getStatusColor COMPLETED <> getStatusColor FAILED
  /\ (forall s : Status,
        (getProgressValue s, getStatusColor s)
          ∈ [(0%Z, "bg-gray-500"); (50%Z, "bg-blue-500");
             (100%Z, "bg-green-500"); (100%Z, "bg-red-500")]).
Proof.
  repeat split; try reflexivity; try discriminate.
  intros []; simpl; set_solver.
Qed.

(** ** Strings: append, trim and occurrence *)

Section Strings.

Implicit Types (s t u : string) (c : ascii).

Lemma string_app_cons c s t : String c s ++ t = String c (s ++ t).
Proof. reflexivity. Qed.

Lemma string_app_nil_l s : "" ++ s = s.
Proof. reflexivity. Qed.

Lemma string_app_nil_r s : s ++ "" = s.
Proof.
  induction s as [|c s IH]; [reflexivity|].
  by rewrite string_app_cons, IH.
Qed.

Lemma string_app_assoc s t u : (s ++ t) ++ u = s ++ t ++ u.
Proof.
  induction s as [|c s IH]; [reflexivity|].
  by rewrite !string_app_cons, IH.
Qed.

Lemma trimEnd_cons c s :
  trimEnd (String c s) =
    match trimEnd s with
    | EmptyString => if is_white c then "" else String c ""
    | r => String c r
    end.
Proof. reflexivity. Qed.

Lemma trimEnd_cons_black c s :
  is_white c = false -> trimEnd (String c s) = String c (trimEnd s).
Proof. intros H. rewrite trimEnd_cons, H. by destruct (trimEnd s). Qed.

(** Trimming the end of a concatenation: the right part alone is
    trimmed unless nothing of it is left. *)
Lemma trimEnd_app s t :
  trimEnd (s ++ t) =
    match trimEnd t with
    | EmptyString => trimEnd s
    | r => s ++ r
    end.
Proof.
  induction s as [|c s IH].
  - rewrite string_app_nil_l. by destruct (trimEnd t).
  - rewrite string_app_cons, !trimEnd_cons, IH.
    destruct (trimEnd t) as [|x r]; [reflexivity|].
    rewrite string_app_cons. by destruct s.
Qed.

Lemma trimEnd_app_blank s t : trimEnd t = "" -> trimEnd (s ++ t) = trimEnd s.
Proof. intros H. by rewrite trimEnd_app, H. Qed.

Lemma trimStart_trimEnd_black c s :
  is_white c = false -> trimStart (trimEnd (String c s)) = trimEnd (String c s).
Proof. intros H. rewrite (trimEnd_cons_black c s H). simpl. by rewrite H. Qed.

(** [trim] of a text between a leading line feed and a trailing blank
    run, when the text starts with a character that is not white. *)
Lemma trim_framed c s t :
  is_white c = false -> trimEnd t = "" ->
  trim (LF ++ String c s ++ t) = trimEnd (String c s).
Proof.
  intros Hc Ht. unfold trim.
  change (LF ++ String c s ++ t) with (String (ascii_of_nat 10) (String c (s ++ t))).
  rewrite <- (trimStart_trimEnd_black c s Hc).
  rewrite trimEnd_cons, (trimEnd_cons_black c (s ++ t) Hc), (trimEnd_app_blank s t Ht).
  rewrite (trimEnd_cons_black c s Hc). reflexivity.
Qed.

Lemma startsWith_app t u : startsWith t (t ++ u) = true.
Proof.
  induction t as [|c t IH]; [reflexivity|].
  rewrite string_app_cons. simpl. by rewrite Ascii.eqb_refl, IH.
Qed.

Lemma includes_unfold t s :
  includes t s =
    startsWith t s || match s with EmptyString => false | String _ s' => includes t s' end.
Proof. by destruct s. Qed.

Lemma includes_occurs t s : occurs_in t s -> includes t s = true.
Proof.
  intros (before & after & ->).
  induction before as [|c before IH].
  - rewrite string_app_nil_l, includes_unfold, startsWith_app. reflexivity.
  - rewrite string_app_cons, includes_unfold, IH. apply orb_true_r.
Qed.

Lemma occurs_in_app_l s t u : occurs_in t u -> occurs_in t (s ++ u).
Proof.
  intros (b & a & ->). exists (s ++ b), a. by rewrite string_app_assoc.
Qed.

(** Texts that occur in order each occur. *)
Lemma occur_in_order_occurs (ts : list string) s t :
  occur_in_order ts s -> t ∈ ts -> occurs_in t s.
Proof.
  revert s. induction ts as [|h ts IH]; intros s Hs Ht.
  - by apply elem_of_nil in Ht.
  - destruct Hs as (before & rest & -> & Hrest).
    apply elem_of_cons in Ht as [-> | Ht].
    + by exists before, rest.
    + apply occurs_in_app_l, occurs_in_app_l. by apply IH.
Qed.

End Strings.

(** ** The export *)

Section ExportLemmas.

Implicit Types (job : Job) (id P R L : string).

Lemma layout_split id P R L : layout id P R L = layout id P R "" ++ L.
Proof. unfold layout. by rewrite !string_app_assoc. Qed.

(** The template is the layout between a line feed and the blank last
    line of the literal. *)
Lemma template_layout job L :
  template job L
  = LF ++ layout (id_text job) (parameters_text job) (results_text job) L
       ++ LF ++ "    ".
Proof.
  unfold template, layout, id_text, parameters_text, results_text.
  by rewrite !string_app_assoc.
Qed.

(** [.trim()] removes the frame, and the white space the logs end in. *)
Lemma trim_template job L :
  trim (template job L)
  = trimEnd (layout (id_text job) (parameters_text job) (results_text job) L).
Proof.
  rewrite template_layout.
  apply (trim_framed "O"); reflexivity.
Qed.

Lemma or_placeholder_nonempty (x : option string) : or_placeholder x <> "".
Proof. by destruct x as [[|c s]|]. Qed.

Lemma occur_in_order_cons (ts : list string) (before t rest : string) :
  occur_in_order ts rest -> occur_in_order (t :: ts) (before ++ t ++ rest).
Proof. intros H. by exists before, rest. Qed.

(** The layout up to the logs block, and the order of its parts. *)
Lemma layout_top id P R :
  exists top,
    (forall L, layout id P R L = top ++ "Logs:" ++ LF ++ L)
    /\ forall t tail, occurs_in t tail ->
         occur_in_order ["Optimization Results for Job " ++ id; P; R; t] (top ++ tail).
Proof.
  exists ("Optimization Results for Job " ++ id ++ LF
          ++ "=====================================" ++ LF ++ LF
          ++ "Parameters:" ++ LF ++ P ++ LF ++ LF
          ++ "Results:" ++ LF ++ R ++ LF ++ LF).
  split.
  - intros L. unfold layout. by rewrite !string_app_assoc.
  - intros t tail (b & a & ->).
    rewrite !string_app_assoc.
    rewrite <- (string_app_assoc "Optimization Results for Job " id).
    apply (occur_in_order_cons _ "").
    match goal with
    | |- occur_in_order _ (LF ++ ?r ++ LF ++ LF ++ ?p ++ LF ++ P ++ ?rest) =>
        change (LF ++ r ++ LF ++ LF ++ p ++ LF ++ P ++ rest)
          with ((LF ++ r ++ LF ++ LF ++ p ++ LF) ++ P ++ rest)
    end.
    apply occur_in_order_cons.
    match goal with
    | |- occur_in_order _ (LF ++ LF ++ ?p ++ LF ++ R ++ ?rest) =>
        change (LF ++ LF ++ p ++ LF ++ R ++ rest)
          with ((LF ++ LF ++ p ++ LF) ++ R ++ rest)
    end.
    apply occur_in_order_cons.
    match goal with
    | |- occur_in_order _ (LF ++ LF ++ b ++ ?rest) =>
        change (LF ++ LF ++ b ++ rest) with ((LF ++ LF) ++ b ++ rest)
    end.
    rewrite <- (string_app_assoc (LF ++ LF) b).
    by apply occur_in_order_cons.
Qed.

(** What is left of a text after trimming occurs in what is left of
    any text that ends with it. *)
Lemma trimEnd_occurs (s t : string) : occurs_in (trimEnd t) (trimEnd (s ++ t)).
Proof.
  rewrite trimEnd_app. destruct (trimEnd t) as [|c r].
  - by exists "", (trimEnd s).
  - exists s, "". by rewrite string_app_nil_r.
Qed.

Lemma trimEnd_fixed_nonempty (s t : string) :
  t <> "" -> trimEnd t = t -> trimEnd (s ++ t) = s ++ t.
Proof.
  intros Hne Ht. rewrite trimEnd_app, Ht. by destruct t.
Qed.

(** The outcome of a click when the results pass the gate and the logs
    joined to [joined]. *)
Lemma handleDownloadResults_download job (joined : option string) :
  truthy (job !! "results") = true ->
  logs_join job = Some joined ->
  handleDownloadResults job
  = Download ("optimization_results_" ++ id_text job ++ ".txt") "text/plain"
      (trimEnd (layout (id_text job) (parameters_text job) (results_text job)
                  (or_placeholder joined))).
Proof.
  intros Hr Hl. unfold handleDownloadResults.
  rewrite Hr, Hl. simpl. by rewrite trim_template.
Qed.

(** The outcome depends on four fields of the job only. *)
Lemma handleDownloadResults_ext job job' :
  job' !! "id" = job !! "id" ->
  job' !! "parameters" = job !! "parameters" ->
  job' !! "results" = job !! "results" ->
  job' !! "logs" = job !! "logs" ->
  handleDownloadResults job' = handleDownloadResults job.
Proof.
  intros Hi Hp Hr Hl.
  unfold handleDownloadResults, logs_join, template.
  by rewrite Hi, Hp, Hr, Hl.
Qed.

Lemma logs_declared_join job :
  logs_declared job = true -> exists joined, logs_join job = Some joined.
Proof.
  unfold logs_declared, logs_join.
  destruct (job !! "logs") as [[| | | | |]|]; try discriminate; eauto.
Qed.

End ExportLemmas.

(** ** What the export guarantees *)

Section ExportClaims.

Implicit Types (job : Job).

(** C6, as the code has it: the export raises the notification "No
    results available for this job" and produces no document whenever
    [job.results] is falsy, in particular when it is absent
    ([undefined] or [null]); when [job.results] is truthy and
    [job.logs] is absent or the empty array, a text/plain document is
    produced and "No logs available" occurs in it. *)
Theorem export_gate_and_placeholder job :
  (truthy (job !! "results") = false ->
     handleDownloadResults job = Toast "No results available for this job")
  /\ (job !! "results" = None \/ job !! "results" = Some VNull ->
     handleDownloadResults job = Toast "No results available for this job")
  /\ (truthy (job !! "results") = true ->
     job !! "logs" = None \/ job !! "logs" = Some VNull
       \/ job !! "logs" = Some (VArr []) ->
     exists name doc,
       handleDownloadResults job = Download name "text/plain" doc
       /\ occurs_in "No logs available" doc).
Proof.
  assert (Hgate : truthy (job !! "results") = false ->
            handleDownloadResults job = Toast "No results available for this job").
  { intros H. unfold handleDownloadResults. by rewrite H. }
  split; [exact Hgate|]. split.
  - intros [H | H]; apply Hgate; by rewrite H.
  - intros Hr Hl.
    assert (Hj : exists joined, logs_join job = Some joined
                   /\ or_placeholder joined = "No logs available").
    { unfold logs_join. destruct Hl as [-> | [-> | ->]]; eauto. }
    destruct Hj as (joined & Hj & Hp).
    eexists _, _. split.
    + exact (handleDownloadResults_download job joined Hr Hj).
    + rewrite Hp, layout_split, trimEnd_fixed_nonempty by done.
      eexists _, "". by rewrite string_app_nil_r.
Qed.

Lemma export_gate_and_placeholder_witness :
  truthy (job_b !! "results") = false
  /\ handleDownloadResults job_b = Toast "No results available for this job"
  /\ truthy (job_a_done !! "results") = true
  /\ job_a_done !! "logs" = None
  /\ exists name doc,
       handleDownloadResults job_a_done = Download name "text/plain" doc
       /\ occurs_in "No logs available" doc.
Proof.
  split; [reflexivity|]. split.
  - apply (proj1 (export_gate_and_placeholder job_b)). reflexivity.
  - split; [reflexivity|]. split; [reflexivity|].
    apply (proj2 (proj2 (export_gate_and_placeholder job_a_done)));
      [reflexivity | left; reflexivity].
Defined.

(** C6 fails as stated: a job whose results are present, the boolean
    [false], and whose logs are empty gets the notification and no
    document. *)
Lemma export_refuses_present_false_results :
  let job : Job := <["logs" := VArr []]> (<["results" := VBool false]> job_a) in
  job !! "results" = Some (VBool false)
  /\ job !! "logs" = Some (VArr [])
  /\ handleDownloadResults job = Toast "No results available for this job"
  /\ ~ exists name type doc, handleDownloadResults job = Download name type doc.
Proof.
  simpl. repeat split. intros (name & type & doc & H). vm_compute in H. discriminate H.
Qed.

(** C9, as the code has it: for a job whose results are truthy and
    whose logs, an array or absent, join to [joined], the export hands
    over a text/plain file named [optimization_results_<id>.txt] whose
    content is the layout (header naming the id, rule, rendering of
    the parameters, rendering of the results, and the joined logs or
    the placeholder when that text is empty) with the white space at
    its end removed.  The header, the two renderings and the logs text
    without its trailing white space occur in it in this order; when
    the logs text ends in no white space the content is the layout
    itself; and the outcome depends on the id, the parameters, the
    results and the logs of the job only. *)
Theorem export_document job (joined : option string) :
  truthy (job !! "results") = true ->
  logs_join job = Some joined ->
  let logs := or_placeholder joined in
  let doc :=
    trimEnd (layout (id_text job) (parameters_text job) (results_text job) logs) in
  handleDownloadResults job
  = Download ("optimization_results_" ++ id_text job ++ ".txt") "text/plain" doc
  /\ occur_in_order
       ["Optimization Results for Job " ++ id_text job;
        parameters_text job; results_text job; trimEnd logs] doc
  /\ (trimEnd logs = logs ->
      doc = layout (id_text job) (parameters_text job) (results_text job) logs)
  /\ (forall job',
        job' !! "id" = job !! "id" ->
        job' !! "parameters" = job !! "parameters" ->
        job' !! "results" = job !! "results" ->
        job' !! "logs" = job !! "logs" ->
        handleDownloadResults job' = handleDownloadResults job).
Proof.
  intros Hr Hl logs doc. subst doc.
  split; [exact (handleDownloadResults_download job joined Hr Hl)|].
  split; [|split].
  - destruct (layout_top (id_text job) (parameters_text job) (results_text job))
      as (top & Htop & Hord).
    rewrite Htop.
    assert (Hblack : trimEnd ("Logs:" ++ LF ++ logs)
                     = String "L" (trimEnd ("ogs:" ++ LF ++ logs))).
    { by apply (trimEnd_cons_black "L"). }
    rewrite trimEnd_app, Hblack. apply Hord. rewrite <- Hblack.
    change ("Logs:" ++ LF ++ logs) with (("Logs:" ++ LF) ++ logs).
    apply trimEnd_occurs.
  - intros Hfix. rewrite layout_split.
    apply trimEnd_fixed_nonempty; [apply or_placeholder_nonempty | exact Hfix].
  - intros job'. apply handleDownloadResults_ext.
Qed.

Lemma export_document_witness :
  let job := job_a_logged in
  let joined := Some ("start" ++ LF ++ "done") in
  let doc :=
    trimEnd (layout (id_text job) (parameters_text job) (results_text job)
               (or_placeholder joined)) in
  truthy (job !! "results") = true
  /\ logs_join job = Some joined
  /\ handleDownloadResults job = Download "optimization_results_a.txt" "text/plain" doc
  /\ occur_in_order
       ["Optimization Results for Job a";
        parameters_text job; results_text job; "start" ++ LF ++ "done"] doc
  /\ doc = layout "a" (parameters_text job) (results_text job) ("start" ++ LF ++ "done").
Proof.
  split; [reflexivity|]. split; [reflexivity|].
  destruct (export_document job_a_logged (Some ("start" ++ LF ++ "done"))
              eq_refl eq_refl) as (H1 & H2 & H3 & _).
  split; [exact H1|]. split; [exact H2|].
  apply H3. reflexivity.
Defined.

(** C9 fails as stated, in two ways.  When the last log line is empty,
    the logs joined by newlines end in a line feed that the document
    does not have, so the joined logs do not occur in it.  And a job
    whose results are present but are the empty string gets no document
    at all. *)
Lemma export_drops_trailing_log_line :
  let job : Job := <["logs" := VArr [VStr "done"; VStr ""]]> job_a_done in
  let job' : Job := <["results" := VStr ""]> job_a in
  (truthy (job !! "results") = true
   /\ logs_join job = Some (Some ("done" ++ LF))
   /\ exists name doc,
        handleDownloadResults job = Download name "text/plain" doc
        /\ ~ occur_in_order
              ["Optimization Results for Job " ++ id_text job;
               parameters_text job; results_text job; "done" ++ LF] doc)
  /\ (job' !! "results" = Some (VStr "")
      /\ handleDownloadResults job' = Toast "No results available for this job").
Proof.
  intros job job'. split; [|split; reflexivity].
  split; [reflexivity|]. split; [reflexivity|].
  eexists _, _. split.
  { apply (handleDownloadResults_download job (Some ("done" ++ LF))); reflexivity. }
  intros H.
  apply (occur_in_order_occurs _ _ ("done" ++ LF)) in H;
    [|do 3 apply list_elem_of_further; apply list_elem_of_here].
  apply includes_occurs in H. vm_compute in H. discriminate H.
Qed.

(** C10, as the code has it: the only gate of the export is the
    truthiness of [job.results].  For a job whose results are truthy
    (and whose logs are an array or absent, as the interface declares)
    the export produces its document, and it produces the same
    document whatever the status of the job is, or without one. *)
Theorem export_ignores_status job :
  truthy (job !! "results") = true ->
  logs_declared job = true ->
  exists name doc,
    handleDownloadResults job = Download name "text/plain" doc
    /\ forall job',
         (forall k, k <> "status" -> job' !! k = job !! k) ->
         handleDownloadResults job' = Download name "text/plain" doc.
Proof.
  intros Hr Hl. destruct (logs_declared_join job Hl) as [joined Hj].
  eexists _, _. split.
  - exact (handleDownloadResults_download job joined Hr Hj).
  - intros job' Hsame.
    rewrite (handleDownloadResults_ext job job') by (apply Hsame; discriminate).
    exact (handleDownloadResults_download job joined Hr Hj).
Qed.

Lemma export_ignores_status_witness :
  let job : Job := <["results" := VObj [("x", VNum 1)]]> job_a in
  job !! "status" = Some (VStr "RUNNING")
  /\ shows_download job = false
  /\ truthy (job !! "results") = true
  /\ logs_declared job = true
  /\ exists name doc,
       handleDownloadResults job = Download name "text/plain" doc
       /\ forall job',
            (forall k, k <> "status" -> job' !! k = job !! k) ->
            handleDownloadResults job' = Download name "text/plain" doc.
Proof.
  split; [reflexivity|]. split; [reflexivity|].
  split; [reflexivity|]. split; [reflexivity|].
  apply (export_ignores_status (<["results" := VObj [("x", VNum 1)]]> job_a));
    reflexivity.
Defined.

(** C10 fails as stated: a completed job whose results are the number
    0, present and not null, is refused. *)
Lemma export_refuses_zero_results :
  let job : Job := <["results" := VNum 0]> (<["status" := VStr "COMPLETED"]> job_a) in
  job !! "results" = Some (VNum 0)
  /\ job !! "status" = Some (VStr "COMPLETED")
  /\ handleDownloadResults job = Toast "No results available for this job"
  /\ ~ exists name type doc, handleDownloadResults job = Download name type doc.
Proof.
  simpl. repeat split. intros (name & type & doc & H). vm_compute in H. discriminate H.
Qed.

End ExportClaims.

(** ** Further properties of the realtime callback *)

Section CallbackAlgebra.

Implicit Types (patch : gmap string value) (prev : list Job) (e : Payload).

Lemma spread_spread_same (job patch : gmap string value) :
  spread (spread job patch) patch = spread job patch.
Proof.
  apply map_eq. intros k. rewrite !spread_lookup. by destruct (patch !! k).
Qed.

Lemma spread_assoc (job p1 p2 : gmap string value) :
  spread (spread job p1) p2 = spread job (spread p1 p2).
Proof.
  apply map_eq. intros k. rewrite !spread_lookup. by destruct (p2 !! k).
Qed.

Lemma merge_one_twice patch (job : Job) :
  merge_one patch (merge_one patch job) = merge_one patch job.
Proof.
  unfold merge_one at 2.
  destruct (strict_eq (job !! "id") (patch !! "id")) eqn:E.
  - unfold merge_one. rewrite (spread_id _ _ E), E. apply spread_spread_same.
  - unfold merge_one. by rewrite E.
Qed.

Lemma merge_one_other patch (job : Job) :
  strict_eq (job !! "id") (patch !! "id") = false -> merge_one patch job = job.
Proof. intros H. unfold merge_one. by rewrite H. Qed.

Lemma merge_one_commute (p1 p2 : gmap string value) (job : Job) :
  strict_eq (p1 !! "id") (p2 !! "id") = false ->
  merge_one p1 (merge_one p2 job) = merge_one p2 (merge_one p1 job).
Proof.
  intros Hne.
  destruct (strict_eq (job !! "id") (p1 !! "id")) eqn:E1,
           (strict_eq (job !! "id") (p2 !! "id")) eqn:E2.
  - rewrite (strict_eq_sym (job !! "id")) in E1.
    rewrite (strict_eq_via _ _ (p2 !! "id") E1) in Hne. congruence.
  - rewrite (merge_one_other p2 job E2).
    apply eq_sym, merge_one_other. by rewrite merge_one_id.
  - rewrite (merge_one_other p1 job E1).
    apply merge_one_other. by rewrite merge_one_id.
  - by rewrite (merge_one_other p2 job E2), (merge_one_other p1 job E1),
         (merge_one_other p2 job E2).
Qed.

(** X1: an UPDATE message neither adds, removes nor reorders records:
    the ids of the collection, position by position, are those of
    before, and so is the number of records of every id. *)
Theorem update_keeps_ids patch prev :
  (fun job : Job => job !! "id") <$> update_jobs patch prev
  = (fun job : Job => job !! "id") <$> prev
  /\ length (update_jobs patch prev) = length prev
  /\ forall i, count_id i (update_jobs patch prev) = count_id i prev.
Proof.
  split; [|split].
  - rewrite update_jobs_fmap, <- list_fmap_compose.
    apply list_fmap_ext. intros n job _. simpl. apply merge_one_id.
  - apply update_jobs_length.
  - intros i. unfold count_id, records_for. rewrite update_jobs_fmap.
    induction prev as [|job prev IH]; [reflexivity|].
    rewrite fmap_cons. simpl. rewrite merge_one_id.
    destruct (strict_eq (job !! "id") i); simpl; by rewrite IH.
Qed.

(** X2: delivering the same UPDATE message twice gives the collection
    that delivering it once gives. *)
Theorem update_idempotent patch prev :
  update_jobs patch (update_jobs patch prev) = update_jobs patch prev.
Proof.
  rewrite !update_jobs_fmap, <- list_fmap_compose.
  apply list_fmap_ext. intros n job _. simpl. apply merge_one_twice.
Qed.

(** X3: two UPDATE messages for one id, applied one after the other,
    act as the single UPDATE whose record is the first message's record
    overwritten by the second's: for each field the last message that
    carries it wins. *)
Theorem update_twice_last_wins (p1 p2 : gmap string value) prev :
  strict_eq (p1 !! "id") (p2 !! "id") = true ->
  update_jobs p2 (update_jobs p1 prev) = update_jobs (spread p1 p2) prev.
Proof.
  intros Hid.
  rewrite !update_jobs_fmap, <- list_fmap_compose.
  apply list_fmap_ext. intros n job _. simpl.
  assert (Hid12 : spread p1 p2 !! "id" = p2 !! "id").
  { rewrite spread_id by exact Hid. by apply strict_eq_eq. }
  unfold merge_one at 2 3. rewrite Hid12.
  destruct (strict_eq (job !! "id") (p1 !! "id")) eqn:E1.
  - rewrite <- (strict_eq_eq _ _ Hid), E1.
    unfold merge_one. rewrite (spread_id _ _ E1), <- (strict_eq_eq _ _ Hid), E1.
    apply spread_assoc.
  - rewrite <- (strict_eq_eq _ _ Hid), E1.
    unfold merge_one. by rewrite <- (strict_eq_eq _ _ Hid), E1.
Qed.

Lemma update_twice_last_wins_witness :
  let p2 : gmap string value := {[ "id" := VStr "a"; "logs" := VArr [VStr "l1"] ]} in
  strict_eq (patch_a !! "id") (p2 !! "id") = true
  /\ update_jobs p2 (update_jobs patch_a [job_b; job_a])
     = update_jobs (spread patch_a p2) [job_b; job_a].
Proof.
  split; [reflexivity|].
  apply (update_twice_last_wins patch_a
           {[ "id" := VStr "a"; "logs" := VArr [VStr "l1"] ]} [job_b; job_a]).
  reflexivity.
Defined.

(** X4: an UPDATE message and any message for a different id can be
    delivered in either order: the whole collection, not only the
    records of the two ids, comes out the same. *)
Theorem update_commutes_with_other_id e patch prev :
  strict_eq (new e !! "id") (patch !! "id") = false ->
  apply_event e (update_jobs patch prev) = update_jobs patch (apply_event e prev).
Proof.
  intros Hne. unfold apply_event. destruct (eventType e).
  - unfold insert_job. rewrite (update_jobs_fmap patch (new e :: prev)), fmap_cons.
    by rewrite (merge_one_other patch (new e) Hne).
  - rewrite !update_jobs_fmap, <- !list_fmap_compose.
    apply list_fmap_ext. intros n job _. simpl. by apply merge_one_commute.
  - reflexivity.
Qed.

Lemma update_commutes_with_other_id_witness :
  strict_eq (new ev_insert_a !! "id") (patch_b !! "id") = false
  /\ apply_event ev_insert_a (update_jobs patch_b [job_b])
     = update_jobs patch_b (apply_event ev_insert_a [job_b]).
Proof.
  split; [reflexivity|].
  apply (update_commutes_with_other_id ev_insert_a patch_b [job_b]). reflexivity.
Defined.

Lemma apply_event_length e prev :
  length (apply_event e prev)
  = (length prev + (if is_insert e then 1 else 0))%nat.
Proof.
  unfold apply_event, is_insert. destruct (eventType e).
  - unfold insert_job. simpl. lia.
  - rewrite update_jobs_length. lia.
  - lia.
Qed.

Lemma apply_events_length (es : list Payload) prev :
  length (apply_events es prev)
  = (length prev + length (List.filter is_insert es))%nat.
Proof.
  unfold apply_events. revert prev.
  induction es as [|e es IH]; intros prev; simpl; [lia|].
  rewrite IH, apply_event_length. destruct (is_insert e); simpl; lia.
Qed.

(** X5: messages never remove a record.  After any run the collection
    has one record more for each INSERT message of the run, and the
    number of records of an id has grown by the number of INSERT
    messages for that id. *)
Theorem run_grows_by_inserts (es : list Payload) prev :
  length (apply_events es prev)
  = (length prev + length (List.filter is_insert es))%nat
  /\ forall i,
       count_id i (apply_events es prev)
       = (count_id i prev + length (List.filter is_insert (events_for i es)))%nat.
Proof.
  split; [apply apply_events_length|].
  intros i. unfold count_id. rewrite records_for_events.
  apply apply_events_length.
Qed.

End CallbackAlgebra.

(** ** The component over time, and what it renders *)

Section Lifecycle.

Implicit Types (st : State) (timeline : list Occurrence).

Lemma on_change_frame (e : Payload) st :
  isLoading (on_change e st) = isLoading st /\ toasts (on_change e st) = toasts st.
Proof. unfold on_change. by destruct (eventType e). Qed.

Lemma fetchJobs_frame (settled : Settled) st :
  isLoading (fetchJobs settled st) = false
  /\ toasts (fetchJobs settled st)
     = (toasts st ++ (if fetch_failed settled then ["Failed to fetch jobs"] else []))%list.
Proof.
  destruct settled as [[d [msg|]]|reason]; simpl; split; try reflexivity.
  by rewrite app_nil_r.
Qed.

Lemma occur_frame (o : Occurrence) st :
  isLoading (occur st o) = isLoading st && negb (is_settled o)
  /\ toasts (occur st o)
     = (toasts st ++ (if is_failed o then ["Failed to fetch jobs"] else []))%list.
Proof.
  destruct o as [e|settled]; unfold occur, is_settled, is_failed.
  - destruct (on_change_frame e st) as [-> ->].
    by rewrite andb_true_r, app_nil_r.
  - destruct (fetchJobs_frame settled st) as [-> ->].
    by rewrite andb_false_r.
Qed.

Lemma timeline_frame timeline st :
  isLoading (fold_left occur timeline st)
  = isLoading st && negb (existsb is_settled timeline)
  /\ toasts (fold_left occur timeline st)
     = (toasts st
        ++ repeat "Failed to fetch jobs" (length (List.filter is_failed timeline)))%list.
Proof.
  revert st. induction timeline as [|o timeline IH]; intros st; simpl.
  - by rewrite andb_true_r, app_nil_r.
  - destruct (IH (occur st o)) as [-> ->].
    destruct (occur_frame o st) as [-> ->]. split.
    + rewrite negb_orb. apply eq_sym, andb_assoc.
    + rewrite <- app_assoc. f_equal. by destruct (is_failed o).
Qed.

Lemma render_loading st : render st = LoadingJobs <-> isLoading st = true.
Proof.
  unfold render. destruct (isLoading st); [done|].
  destruct (Nat.eqb (length (jobs st)) 0); split; discriminate.
Qed.

(** X6: the component shows "Loading jobs..." exactly as long as the
    fetch has not settled: messages never end the loading state,
    the settled fetch always does, failed or not, and a session without
    a user, for which no fetch is started, stays loading.  The only
    notifications are one "Failed to fetch jobs" for each failed fetch. *)
Theorem loading_until_fetch_settles (session : option Session) timeline :
  (render (session_run session timeline) = LoadingJobs
   <-> has_user session = false \/ existsb is_settled timeline = false)
  /\ toasts (session_run session timeline)
     = repeat "Failed to fetch jobs"
         (if has_user session then length (List.filter is_failed timeline) else 0).
Proof.
  unfold session_run. destruct (has_user session).
  - destruct (timeline_frame timeline initial) as [Hl Ht]. split.
    + rewrite render_loading, Hl. simpl.
      destruct (existsb is_settled timeline); simpl; split; auto.
      intros [H | H]; discriminate.
    + exact Ht.
  - split; [|reflexivity]. split; [by left | reflexivity].
Qed.

(** X7: once the fetch has settled without error the component shows
    the snapshot, whatever it showed before: the "No jobs found" card
    for a [null] or empty snapshot, one card per record otherwise.  A
    failed fetch leaves the loading text as well, and shows the records
    held before it, or the "No jobs found" card when there were none. *)
Theorem render_after_fetch (settled : Settled) st :
  render (fetchJobs settled st)
  = match settled with
    | Fulfilled (mkResponse snapshot None) =>
        match default [] snapshot with
        | [] => NoJobsFound
        | job :: rest => JobCards (job :: rest)
        end
    | _ =>
        match jobs st with
        | [] => NoJobsFound
        | job :: rest => JobCards (job :: rest)
        end
    end.
Proof.
  destruct settled as [[d [msg|]]|reason]; unfold render; simpl.
  - by destruct (jobs st).
  - by destruct (default [] d).
  - by destruct (jobs st).
Qed.

(** X8: the download button is rendered only for jobs the export does
    not refuse: a click on a rendered button never raises the "No
    results available" notification, and hands over a file whenever the
    logs are an array or absent. *)
Theorem rendered_button_exports (job : Job) :
  shows_download job = true ->
  (forall msg, handleDownloadResults job <> Toast msg)
  /\ (logs_declared job = true ->
      exists name doc, handleDownloadResults job = Download name "text/plain" doc).
Proof.
  unfold shows_download. intros H. apply andb_true_iff in H as [_ Hr]. split.
  - intros msg. unfold handleDownloadResults. rewrite Hr. simpl.
    by destruct (logs_join job).
  - intros Hl. destruct (logs_declared_join job Hl) as [joined Hj].
    eexists _, _. exact (handleDownloadResults_download job joined Hr Hj).
Qed.

Lemma rendered_button_exports_witness :
  shows_download job_a_done = true
  /\ (forall msg, handleDownloadResults job_a_done <> Toast msg)
  /\ (logs_declared job_a_done = true ->
      exists name doc,
        handleDownloadResults job_a_done = Download name "text/plain" doc).
Proof.
  split; [reflexivity|].
  apply (rendered_button_exports job_a_done). reflexivity.
Defined.

(** X9: the progress bar is rendered for running jobs only, and then
    it always stands at 50: the values 0 and 100 of [getProgressValue]
    never reach the screen. *)
Theorem progress_bar_is_half (job : Job) :
  (job !! "status" = Some (VStr "RUNNING") -> progress_bar job = Some 50%Z)
  /\ (forall v, progress_bar job = Some v ->
        v = 50%Z /\ job !! "status" = Some (VStr "RUNNING")).
Proof.
  unfold progress_bar. split.
  - intros ->. reflexivity.
  - intros v. destruct (strict_eq (job !! "status") (Some (VStr "RUNNING"))) eqn:E;
      [|discriminate].
    apply strict_eq_eq in E. rewrite E. simpl. intros [= <-]. done.
Qed.

Lemma progress_bar_is_half_witness :
  job_a !! "status" = Some (VStr "RUNNING")
  /\ progress_bar job_a = Some 50%Z
  /\ progress_bar job_a_done = None.
Proof.
  split; [reflexivity|]. split; [|reflexivity].
  apply (proj1 (progress_bar_is_half job_a)). reflexivity.
Defined.

End Lifecycle.

(** ** Further properties of the export *)

Section ExportEdges.

Implicit Types (job : Job).



(** X11: logs that are not empty but consist of white space only (for
    instance two empty lines) leave the logs block of the document
    empty: the document ends with the title "Logs:", followed neither
    by the logs nor by the placeholder. *)
Theorem export_blank_logs job (joined : string) :
  truthy (job !! "results") = true ->
  logs_join job = Some (Some joined) ->
  joined <> "" ->
  trimEnd joined = "" ->
  exists top,
    (forall logs,
       layout (id_text job) (parameters_text job) (results_text job) logs
       = top ++ "Logs:" ++ LF ++ logs)
    /\ handleDownloadResults job
       = Download ("optimization_results_" ++ id_text job ++ ".txt") "text/plain"
           (top ++ "Logs:").
Proof.
  intros Hr Hj Hne Hblank.
  destruct (layout_top (id_text job) (parameters_text job) (results_text job))
    as (top & Htop & _).
  exists top. split; [exact Htop|].
  rewrite (handleDownloadResults_download job (Some joined) Hr Hj).
  f_equal.
  assert (Hp : or_placeholder (Some joined) = joined) by (by destruct joined).
  rewrite Hp, Htop.
  assert (Hlogs : trimEnd ("Logs:" ++ LF ++ joined) = "Logs:").
  { change ("Logs:" ++ LF ++ joined) with (("Logs:" ++ LF) ++ joined).
    by rewrite trimEnd_app, Hblank. }
  by rewrite trimEnd_app, Hlogs.
Qed.

Lemma export_blank_logs_witness :
  let job : Job := <["logs" := VArr [VStr ""; VStr ""]]> job_a_done in
  truthy (job !! "results") = true
  /\ logs_join job = Some (Some LF)
  /\ LF <> ""
  /\ trimEnd LF = ""
  /\ exists top,
       (forall logs,
          layout (id_text job) (parameters_text job) (results_text job) logs
          = top ++ "Logs:" ++ LF ++ logs)
       /\ handleDownloadResults job
          = Download ("optimization_results_" ++ id_text job ++ ".txt") "text/plain"
              (top ++ "Logs:").
Proof.
  intros job.
  split; [reflexivity|]. split; [reflexivity|]. split; [discriminate|].
  split; [reflexivity|].
  apply (export_blank_logs (<["logs" := VArr [VStr ""; VStr ""]]> job_a_done) LF);
    [reflexivity | reflexivity | discriminate | reflexivity].
Defined.

(** X12: a job without an id or without parameters is still exported:
    the text "undefined" stands for the missing id, in the file name
    and in the header, and for the missing parameters. *)
Theorem export_missing_fields job (joined : option string) :
  truthy (job !! "results") = true ->
  logs_join job = Some joined ->
  (job !! "id" = None ->
   exists doc,
     handleDownloadResults job
     = Download "optimization_results_undefined.txt" "text/plain" doc
     /\ startsWith "Optimization Results for Job undefined" doc = true)
  /\ (job !! "parameters" = None ->
      handleDownloadResults job
      = Download ("optimization_results_" ++ id_text job ++ ".txt") "text/plain"
          (trimEnd (layout (id_text job) "undefined" (results_text job)
                      (or_placeholder joined)))).
Proof.
  intros Hr Hj.
  pose proof (handleDownloadResults_download job joined Hr Hj) as H.
  split.
  - intros Hid. unfold id_text in H. rewrite Hid in H.
    set (P := parameters_text job) in *. set (R := results_text job) in *.
    set (L := or_placeholder joined) in *.
    exists (trimEnd (layout (ToString_opt None) P R L)). split; [exact H|].
    assert (Hsplit : layout (ToString_opt None) P R L
              = "Optimization Results for Job undefined"
                ++ String "010"
                     (String "="
                        ("====================================" ++ LF ++ LF
                         ++ "Parameters:" ++ LF ++ P ++ LF ++ LF
                         ++ "Results:" ++ LF ++ R ++ LF ++ LF
                         ++ "Logs:" ++ LF ++ L))).
    { reflexivity. }
    rewrite Hsplit, trimEnd_app, (trimEnd_cons "010").
    rewrite (trimEnd_cons_black "=") by reflexivity.
    apply startsWith_app.
  - intros Hp. rewrite H. unfold parameters_text. by rewrite Hp.
Qed.

End ExportEdges.

Lemma export_missing_fields_witness :
  let job : Job := {[ "results" := VNum 7 ]} in
  truthy (job !! "results") = true
  /\ logs_join job = Some None
  /\ job !! "id" = None
  /\ job !! "parameters" = None
  /\ (exists doc,
        handleDownloadResults job
        = Download "optimization_results_undefined.txt" "text/plain" doc
        /\ startsWith "Optimization Results for Job undefined" doc = true)
  /\ handleDownloadResults job
     = Download ("optimization_results_" ++ id_text job ++ ".txt") "text/plain"
         (trimEnd (layout (id_text job) "undefined" (results_text job)
                     (or_placeholder None))).
Proof.
  intros job.
  split; [reflexivity|]. split; [reflexivity|].
  split; [reflexivity|]. split; [reflexivity|].
  destruct (export_missing_fields job None) as [H1 H2];
    [reflexivity | reflexivity |].
  split; [apply H1 | apply H2]; reflexivity.
Defined.

(** ** The sidebar *)

Section Sidebar.

Import AppSidebar.

Implicit Types (session : option Session) (entries : list Item) (item : Item).

Lemma filter_items_elem session entries item :
  item ∈ filter_items session entries <-> item ∈ entries /\ shown session item = true.
Proof.
  unfold filter_items. rewrite !list_elem_of_In. apply filter_In.
Qed.

(** X13: whatever the entries, a menu never mixes the two kinds of
    flagged entries: an entry hidden from signed-in users and an entry
    reserved to them are never shown together; an entry with neither
    flag is always shown; and the menu lists entries of the table only,
    in the order of the table. *)
Theorem menu_never_mixes session entries :
  (forall a b,
     a ∈ filter_items session entries -> b ∈ filter_items session entries ->
     ~ (hideWhenAuth a = Some true /\ requireAuth b = Some true))
  /\ (forall item,
        item ∈ entries -> hideWhenAuth item <> Some true ->
        requireAuth item <> Some true ->
        item ∈ filter_items session entries)
  /\ sublist (filter_items session entries) entries.
Proof.
  split; [|split].
  - intros a b Ha Hb [Hha Hrb].
    apply filter_items_elem in Ha as [_ Ha], Hb as [_ Hb].
    unfold shown in *. destruct session.
    + rewrite Hha in Ha. discriminate.
    + rewrite Hrb in Hb. discriminate.
  - intros item Hin Hh Hr. apply filter_items_elem. split; [exact Hin|].
    unfold shown, not_flag.
    destruct session, (hideWhenAuth item) as [[|]|], (requireAuth item) as [[|]|];
      done.
  - unfold filter_items. induction entries as [|item entries IH]; simpl.
    + constructor.
    + destruct (shown session item); by constructor.
Qed.

(** X14: the menu of the application.  A signed-in visitor sees Home,
    Solvers, Datasets, Playground, Community and Profile; a visitor who
    is not signed in sees Home, Login, Solvers, Datasets and Community. *)
Theorem menu_by_session session :
  title <$> filteredItems session
  = match session with
    | Some _ => ["Home"; "Solvers"; "Datasets"; "Playground"; "Community"; "Profile"]
    | None => ["Home"; "Login"; "Solvers"; "Datasets"; "Community"]
    end.
Proof. by destruct session. Qed.

End Sidebar.

(** ** The submission form *)

Section Form.

Import SubmissionForm.

Implicit Types (w : World) (actions : list Action).

Lemma handleSubmit_blank_description resolves w :
  description (form w) = "" ->
  handleSubmit resolves w = toast (Error "Please fill in all fields") w.
Proof.
  intros H. unfold handleSubmit. rewrite H.
  replace (blank "") with true by reflexivity.
  by rewrite orb_true_r.
Qed.

Lemma act_blank_description w (a : Action) :
  description (form w) = "" ->
  description (form (act w a)) = ""
  /\ isSubmitting (form (act w a)) = isSubmitting (form w)
  /\ calls (act w a) = calls w
  /\ notices (act w a)
     = (notices w
        ++ (if is_submit a then [Error "Please fill in all fields"] else []))%list.
Proof.
  intros H. destruct a as [v|v|resolves]; simpl.
  - by rewrite app_nil_r.
  - by rewrite app_nil_r.
  - by rewrite (handleSubmit_blank_description resolves w H).
Qed.

Lemma run_from_blank_description actions w :
  description (form w) = "" ->
  description (form (fold_left act actions w)) = ""
  /\ isSubmitting (form (fold_left act actions w)) = isSubmitting (form w)
  /\ calls (fold_left act actions w) = calls w
  /\ notices (fold_left act actions w)
     = (notices w
        ++ repeat (Error "Please fill in all fields")
             (length (List.filter is_submit actions)))%list.
Proof.
  revert w. induction actions as [|a actions IH]; intros w H; simpl.
  - by rewrite app_nil_r.
  - destruct (act_blank_description w a H) as (Hd & Hs & Hc & Hn).
    destruct (IH (act w a) Hd) as (-> & -> & -> & ->).
    rewrite Hs, Hc, Hn, <- app_assoc.
    repeat split; try reflexivity. f_equal. by destruct (is_submit a).
Qed.

(** X15: the form as rendered cannot be submitted.  No control sets
    the description, so after any sequence of typing and submitting the
    description is still empty, every submission was answered by
    "Please fill in all fields" and nothing else, and [addResult] was
    never called. *)
Theorem form_never_submits actions :
  description (form (run actions)) = ""
  /\ calls (run actions) = []
  /\ notices (run actions)
     = repeat (Error "Please fill in all fields")
         (length (List.filter is_submit actions))
  /\ isSubmitting (form (run actions)) = false.
Proof.
  destruct (run_from_blank_description actions SubmissionForm.initial eq_refl)
    as (Hd & Hs & Hc & Hn).
  unfold run. by rewrite Hd, Hs, Hc, Hn.
Qed.

(** X16: whatever the state of the form and the fate of [addResult],
    one submission raises exactly one notification, calls [addResult]
    at most once, and exactly when none of the three fields is empty,
    with the three fields as they were; it never leaves the form
    marked as submitting; and it empties the fields only when
    [addResult] was called and resolved. *)
Theorem submit_once resolves w :
  let filled :=
    negb (blank (email (form w)) || blank (comment (form w))
          || blank (description (form w))) in
  let w' := handleSubmit resolves w in
  length (notices w') = S (length (notices w))
  /\ calls w'
     = (calls w
        ++ (if filled
            then [mkResult (email (form w)) (comment (form w)) (description (form w))]
            else []))%list
  /\ (filled = true -> isSubmitting (form w') = false)
  /\ (filled = false -> form w' = form w)
  /\ email (form w') = (if filled && resolves then "" else email (form w))
  /\ comment (form w') = (if filled && resolves then "" else comment (form w))
  /\ description (form w')
     = (if filled && resolves then "" else description (form w)).
Proof.
  unfold handleSubmit.
  destruct (blank (email (form w)) || blank (comment (form w))
            || blank (description (form w))); simpl.
  - rewrite length_app, app_nil_r. simpl. repeat split; try done; lia.
  - destruct resolves; simpl; rewrite length_app; simpl;
      repeat split; try done; lia.
Qed.

End Form.
